(** * Exchange-rate table maintenance: [transform_bsi_data] and [merge_rates]

    A shallow embedding of [scripts/update-conversion-rates.py]: its two
    pure functions and the properties of the rate table they maintain,
    then the functions that fetch, load and save, and [main].

    Conventions of the embedding.
    - A Python [str] is a Rocq [string], read as the UTF-8 bytes of the
      text.  Python orders strings by code point; the bytewise order of
      UTF-8 is the same order, so [String.compare] is Python's [<] on [str].
    - A Python [dict] with string keys is a [gmap string _]: equality of
      [gmap]s is equality of their lookups, which is Python's [==] on dicts
      (iteration order is not part of it).  [map_to_list] lists the items
      of a dict in an order of its own, where Python lists them in
      insertion order; the two loops over items of [merge_rates] do not
      depend on that order ([assign_all_Permutation],
      [sorted_reverse_Permutation_eq]).
    - A JSON number is an [int] or a [float]; floats are the kernel's
      binary64 numbers.
    - An exception is the [None] of an [option] result. *)

From Stdlib Require Import ZArith String Ascii PrimFloat.
From stdpp Require Import gmap strings list fin_maps sorting.

Local Open Scope string_scope.
Set Warnings "-inexact-float,-clear-no-such-hyp".

(** ** Data model *)

(** A rate as [json.load] produces it. *)
Inductive number : Type :=
  | PyInt (z : Z)
  | PyFloat (f : float).

(** [v == 0] for a number; it holds of both float zeros and of no NaN. *)
Definition number_is_zero (v : number) : bool :=
  match v with
  | PyInt z => (z =? 0)%Z
  | PyFloat f => PrimFloat.eqb f 0%float
  end.

(** [bool(v)] for a number: false exactly when [v == 0]. *)
Definition number_bool (v : number) : bool := negb (number_is_zero v).

(** [bool(s)] for a string: false exactly for the empty string. *)
Definition str_bool (s : string) : bool := negb (String.eqb s "").

(** The builtin [all] on a list of truth values. *)
Definition all (l : list bool) : bool := forallb id l.

(** One element of [bsi_data], seen through the three [entry.get(...)]
    calls of the loop body: [None] when the key is missing or holds JSON
    [null] ([dict.get] returns [None] in both cases), otherwise the string
    or number stored under the key. *)
Record Entry : Type := {
  get_date : option string;
  get_code : option string;
  get_value : option number
}.

(** One element of the persisted table: [{"date": ..., "rates": {...}}]. *)
Record RateRecord : Type := {
  date : string;
  rates : gmap string number
}.

(** ** [transform_bsi_data] *)

(** [d[k]] as an expression: [KeyError] when the key is missing. *)
Definition getitem {V} (d : gmap string V) (k : string) : option V := d !! k.

(** The body of the [for entry in bsi_data] loop. *)
Definition transform_entry (rates_by_date : gmap string (gmap string number))
    (entry : Entry) : option (gmap string (gmap string number)) :=
  match get_date entry, get_code entry, get_value entry with
  | Some date, Some code, Some value =>
      if negb (all [str_bool date; str_bool code; number_bool value])
      then Some rates_by_date
      else
        let rates_by_date :=
          if bool_decide (date ∉ dom rates_by_date)
          then <[date := ∅]> rates_by_date
          else rates_by_date in
        inner ← getitem rates_by_date date;
        Some (<[date := <[code := value]> inner]> rates_by_date)
  | _, _, _ =>
      (* a [None] among the three is falsy: [continue] *)
      Some rates_by_date
  end.

Fixpoint transform_loop (rates_by_date : gmap string (gmap string number))
    (bsi_data : list Entry) : option (gmap string (gmap string number)) :=
  match bsi_data with
  | [] => Some rates_by_date
  | entry :: rest =>
      rates_by_date ← transform_entry rates_by_date entry;
      transform_loop rates_by_date rest
  end.

Definition transform_bsi_data (bsi_data : list Entry)
    : option (gmap string (gmap string number)) :=
  transform_loop ∅ bsi_data.

(** What the loop does with an entry, in the words of its contract. A field
    is absent or falsy when [entry.get] gives [None], the empty string, or
    a number equal to zero. *)
Definition absent_or_falsy_str (x : option string) : Prop :=
  x = None ∨ x = Some "".

Definition absent_or_falsy_number (x : option number) : Prop :=
  x = None ∨ ∃ v, x = Some v ∧ number_is_zero v = true.

Definition invalid_entry (entry : Entry) : Prop :=
  absent_or_falsy_str (get_date entry) ∨
  absent_or_falsy_str (get_code entry) ∨
  absent_or_falsy_number (get_value entry).

(** The entry is a valid observation of rate [v] for code [c] on date [d]. *)
Definition observes (entry : Entry) (d c : string) (v : number) : Prop :=
  get_date entry = Some d ∧ get_code entry = Some c ∧
  get_value entry = Some v ∧
  d ≠ "" ∧ c ≠ "" ∧ number_is_zero v = false.

(** [rates_by_date[d][c]], when both keys are there. *)
Definition rate_at (rates_by_date : gmap string (gmap string number))
    (d c : string) : option number :=
  rates_by_date !! d ≫= λ inner, inner !! c.

Definition observation (d c : string) (v : number) : Entry :=
  {| get_date := Some d; get_code := Some c; get_value := Some v |}.

(** ** [merge_rates] *)

(** Sorting by a string key, largest key first. *)
Definition key_ge {A : Type} (key : A → string) (x y : A) : Prop :=
  String.leb (key y) (key x) = true.

Definition key_gt {A : Type} (key : A → string) (x y : A) : Prop :=
  String.ltb (key y) (key x) = true.

#[global] Instance key_ge_dec {A : Type} (key : A → string) x y :
  Decision (key_ge key x y).
Proof. unfold key_ge. apply _. Defined.

(** [sorted(items, reverse=True)] on the items of a dict keyed by date.
    Python compares the [(date, rates)] tuples, and looks at the second
    component only when two dates are equal, which the items of one dict
    never are (see [items_dates_NoDup]): the order is the one of the
    dates, the largest first. *)
Definition sorted_reverse (items : list (string * gmap string number))
    : list (string * gmap string number) :=
  merge_sort (key_ge fst) items.

Definition merge_rates (existing : list RateRecord)
    (new_rates_by_date : gmap string (gmap string number)) : list RateRecord :=
  let existing_by_date :=
    foldl (λ d entry, <[date entry := rates entry]> d) ∅ existing in
  let existing_by_date :=
    foldl (λ d '(date, rates), <[date := rates]> d)
          existing_by_date (map_to_list new_rates_by_date) in
  (λ '(date, rates), {| date := date; rates := rates |})
    <$> sorted_reverse (map_to_list existing_by_date).

(** ** Auxiliary definitions *)

(** Strictly later date first: the order of the merged table. *)
Definition date_gt (r1 r2 : RateRecord) : Prop :=
  String.ltb (date r2) (date r1) = true.

#[global] Instance date_gt_dec r1 r2 : Decision (date_gt r1 r2).
Proof. unfold date_gt. apply _. Defined.

(** Writing a list of key/value bindings into a dict, one item assignment
    per element, later elements overwriting earlier ones. *)
Definition assign_all {A V : Type} (key : A → string) (val : A → V)
    (d : gmap string V) (l : list A) : gmap string V :=
  foldl (λ d x, <[key x := val x]> d) d l.

(** The dict that [merge_rates] sorts: the updates laid over the re-keyed
    table. *)
Definition merged_by_date (existing : list RateRecord)
    (new_rates_by_date : gmap string (gmap string number))
    : gmap string (gmap string number) :=
  new_rates_by_date ∪ assign_all date rates ∅ existing.

Definition to_record (item : string * gmap string number) : RateRecord :=
  {| date := item.1; rates := item.2 |}.

Definition to_item (r : RateRecord) : string * gmap string number :=
  (date r, rates r).

(** The same table, re-sorted in descending date order: what the
    specification compares [merge_rates existing {}] with. *)
Definition resorted_descending (existing : list RateRecord) : list RateRecord :=
  merge_sort (key_ge date) existing.

(** Every rate set of the dict under construction has a code in it. *)
Definition rate_sets_nonempty (rates_by_date : gmap string (gmap string number))
    : Prop :=
  ∀ d inner, rates_by_date !! d = Some inner →
    inner ≠ ∅ ∧ ∃ c v, inner !! c = Some v.

(** ** Sample tables *)

Definition usd_only (v : number) : gmap string number := {[ "USD" := v ]}.

Definition jan01 : RateRecord :=
  {| date := "2024-01-01"; rates := {[ "USD" := PyFloat 1.0 ]} |}.
Definition jan01_late : RateRecord :=
  {| date := "2024-01-01"; rates := {[ "USD" := PyFloat 1.2; "CHF" := PyFloat 0.95 ]} |}.
Definition feb01 : RateRecord :=
  {| date := "2024-02-01"; rates := {[ "USD" := PyFloat 1.3 ]} |}.
Definition jan01_update : gmap string (gmap string number) :=
  {[ "2024-01-01" := {[ "USD" := PyFloat 1.1; "GBP" := PyFloat 0.9 ]} ]}.
Definition mar01_update : gmap string (gmap string number) :=
  {[ "2024-03-01" := {[ "USD" := PyFloat 1.4 ]} ]}.


(** ** The rest of the script: [fetch_rates_for_year], [load_existing_rates],
    [save_rates] and [main]

    The script reads its command line and the clock, asks the bank's API
    for one year of rates, and reads and writes one file.  The model
    threads a [World] (the file and the lines printed so far) through
    these functions and takes the rest from an [Env]. *)

(** The decoded body of the API's answer, seen through the [data.get(...)]
    calls of [fetch_rates_for_year]: [None] for a missing key. *)
Record Payload : Type := {
  get_success : option bool;
  get_error : option string;
  get_data : option (list Entry)
}.

(** What [urlopen(url, timeout=30)], reading and decoding the body come
    to: a [URLError], which the function catches, any other exception (a
    body that is not JSON, say), which it does not, or the decoded body. *)
Inductive Response : Type :=
  | URLError
  | OtherException
  | Body (data : Payload).

(** What the script takes from outside: [sys.argv], the builtin [int] on a
    string ([None] for [ValueError]), [datetime.now().year], and the API,
    asked with [?date=year]. *)
Record Env : Type := {
  argv : list string;
  int : string → option Z;
  now_year : Z;
  urlopen : Z → Response
}.

(** A line printed by the script, with the values it interpolates. *)
Inductive Message : Type :=
  | FetchingRatesFrom (year : Z)
  | ErrorFetchingData
  | ApiReturnedError (error : option string)
  | WarningNotFound
  | SavedEntries (n : nat)
  | InvalidYear (arg : string)
  | UpdatingFor (year : Z)
  | NoDataFetched
  | FetchedEntries (n : nat)
  | TransformedInto (n : nat)
  | LoadedEntries (n : nat)
  | AddedUpdated (added updated : nat)
  | Done.

(** The file [conversion-rates.json] ([None] when it does not exist) and
    the standard output. *)
Record World : Type := {
  file : option (list RateRecord);
  stdout : list Message
}.

Definition print (m : Message) (w : World) : World :=
  {| file := file w; stdout := stdout w ++ [m] |}.

(** How a call ends: it returns, [sys.exit(code)] is called, or an
    exception escapes. *)
Inductive Outcome : Type :=
  | Returned
  | SysExit (code : Z)
  | Raised.

(** [bool(x)] for the value of [data.get("success")]. *)
Definition success_bool (x : option bool) : bool := default false x.

(** [bool(l)] for a list: false exactly for the empty list. *)
Definition list_bool {A} (l : list A) : bool :=
  match l with [] => false | _ :: _ => true end.

(** The result is [None] when an exception escapes the function. *)
Definition fetch_rates_for_year (env : Env) (year : Z) (w : World)
    : option (list Entry) * World :=
  let w := print (FetchingRatesFrom year) w in
  match urlopen env year with
  | URLError => (Some [], print ErrorFetchingData w)
  | OtherException => (None, w)
  | Body data =>
      if negb (success_bool (get_success data))
      then (Some [], print (ApiReturnedError (get_error data)) w)
      else (Some (default [] (get_data data)), w)
  end.

Definition load_existing_rates (w : World) : list RateRecord * World :=
  match file w with
  | None => ([], print WarningNotFound w)
  | Some table => (table, w)
  end.

Definition save_rates (rates : list RateRecord) (w : World) : World :=
  print (SavedEntries (length rates))
    {| file := Some rates; stdout := stdout w |}.

(** [main] from the point where the year is known. *)
Definition main_for_year (env : Env) (year : Z) (w : World) : Outcome * World :=
  let w := print (UpdatingFor year) w in
  let '(bsi_data, w) := fetch_rates_for_year env year w in
  match bsi_data with
  | None => (Raised, w)
  | Some bsi_data =>
      if negb (list_bool bsi_data)
      then (SysExit 1, print NoDataFetched w)
      else
        let w := print (FetchedEntries (length bsi_data)) w in
        match transform_bsi_data bsi_data with
        | None => (Raised, w)
        | Some new_rates =>
            let w := print (TransformedInto (size new_rates)) w in
            let '(existing_rates, w) := load_existing_rates w in
            let w := print (LoadedEntries (length existing_rates)) w in
            let merged_rates := merge_rates existing_rates new_rates in
            let existing_dates : gset string :=
              list_to_set (date <$> existing_rates) in
            let new_dates := dom new_rates ∖ existing_dates in
            let updated_dates := dom new_rates ∩ existing_dates in
            let w :=
              print (AddedUpdated (size new_dates) (size updated_dates)) w in
            let w := save_rates merged_rates w in
            (Returned, print Done w)
        end
  end.

Definition main (env : Env) (w : World) : Outcome * World :=
  match argv env with
  | _ :: arg :: _ =>
      (* [len(sys.argv) > 1]: the year is [int(sys.argv[1])] *)
      match int env arg with
      | Some year => main_for_year env year w
      | None => (SysExit 1, print (InvalidYear arg) w)
      end
  | _ => main_for_year env (now_year env) w
  end.

(** Laying the rate sets of a second mapping over those of a first, code
    by code: what transforming a longer list adds to the result for a
    shorter one. *)
Definition overlay_rates (first second : gmap string (gmap string number))
    : gmap string (gmap string number) :=
  union_with (λ r1 r2, Some (r2 ∪ r1)) first second.

(** The table [load_existing_rates] gives in a world. *)
Definition existing_table (w : World) : list RateRecord := default [] (file w).

(** The year [main] asks the API for: [None] when the argument is there
    and [int] rejects it. *)
Definition requested_year (env : Env) : option Z :=
  match argv env with
  | _ :: arg :: _ => int env arg
  | _ => Some (now_year env)
  end.

(** The lines of a run of [main] that reaches its end, for the year asked,
    the list fetched and its transform, in a world [w]. *)
Definition lines_of_run (year : Z) (bsi_data : list Entry)
    (new_rates : gmap string (gmap string number)) (w : World) : list Message :=
  [ UpdatingFor year; FetchingRatesFrom year;
    FetchedEntries (length bsi_data); TransformedInto (size new_rates) ]
  ++ (if file w is None then [WarningNotFound] else [])
  ++ [ LoadedEntries (length (existing_table w));
       AddedUpdated
         (size (dom new_rates ∖ list_to_set (date <$> existing_table w)
                : gset string))
         (size (dom new_rates ∩ list_to_set (date <$> existing_table w)
                : gset string));
       SavedEntries (length (merge_rates (existing_table w) new_rates));
       Done ].

(** ** A sample environment *)

Definition dec30_data : list Entry :=
  [ observation "2024-12-30" "USD" (PyFloat 1.04);
    observation "2024-12-30" "GBP" (PyFloat 0.83);
    observation "2024-12-31" "USD" (PyFloat 1.05);
    observation "2024-12-31" "USD" (PyInt 0) ].

Definition sample_env : Env :=
  {| argv := ["update-conversion-rates.py"; "2024"];
     int := λ s, if String.eqb s "2024" then Some 2024%Z else None;
     now_year := 2026%Z;
     urlopen := λ year,
       if (year =? 2024)%Z
       then Body {| get_success := Some true; get_error := None;
                    get_data := Some dec30_data |}
       else URLError |}.

Definition sample_world : World :=
  {| file := Some [jan01; feb01; jan01_late]; stdout := [] |}.


(** * The order on dates *)

Section date_order.

Lemma ascii_compare_refl (a : ascii) : Ascii.compare a a = Eq.
Proof. unfold Ascii.compare. apply N.compare_refl. Qed.

Lemma ascii_compare_lt_trans (a b c : ascii) :
  Ascii.compare a b = Lt → Ascii.compare b c = Lt → Ascii.compare a c = Lt.
Proof.
  unfold Ascii.compare. rewrite !N.compare_lt_iff. apply N.lt_trans.
Qed.

Lemma string_compare_refl (s : string) : String.compare s s = Eq.
Proof.
  induction s as [|a s IH]; simpl; [done|]. by rewrite ascii_compare_refl.
Qed.

Lemma string_compare_lt_trans (s1 s2 s3 : string) :
  String.compare s1 s2 = Lt → String.compare s2 s3 = Lt →
  String.compare s1 s3 = Lt.
Proof.
  revert s2 s3. induction s1 as [|a1 s1 IH]; intros [|a2 s2] [|a3 s3];
    simpl; try done.
  destruct (Ascii.compare a1 a2) eqn:H12; try done;
    destruct (Ascii.compare a2 a3) eqn:H23; try done.
  - apply Ascii.compare_eq_iff in H12, H23. subst.
    rewrite ascii_compare_refl. apply IH.
  - apply Ascii.compare_eq_iff in H12. subst. by rewrite H23.
  - apply Ascii.compare_eq_iff in H23. subst. by rewrite H12.
  - by rewrite (ascii_compare_lt_trans _ _ _ H12 H23).
Qed.

Lemma string_ltb_irrefl (s : string) : String.ltb s s = false.
Proof. unfold String.ltb. by rewrite string_compare_refl. Qed.

Lemma string_ltb_trans (s1 s2 s3 : string) :
  String.ltb s1 s2 = true → String.ltb s2 s3 = true →
  String.ltb s1 s3 = true.
Proof.
  unfold String.ltb. intros H12 H23.
  destruct (String.compare s1 s2) eqn:E12; try done.
  destruct (String.compare s2 s3) eqn:E23; try done.
  by rewrite (string_compare_lt_trans _ _ _ E12 E23).
Qed.

Lemma string_leb_ltb (s1 s2 : string) :
  String.leb s1 s2 = true ↔ s1 = s2 ∨ String.ltb s1 s2 = true.
Proof.
  unfold String.leb, String.ltb. split.
  - destruct (String.compare s1 s2) eqn:E; try done; [|by right].
    left. by apply String.compare_eq_iff.
  - intros [->|H]; [by rewrite string_compare_refl|].
    by destruct (String.compare s1 s2).
Qed.

Lemma string_leb_trans (s1 s2 s3 : string) :
  String.leb s1 s2 = true → String.leb s2 s3 = true →
  String.leb s1 s3 = true.
Proof.
  rewrite !string_leb_ltb. intros [->|H12] [->|H23]; eauto.
  right. by eapply string_ltb_trans.
Qed.

End date_order.

#[global] Instance date_gt_trans : Transitive date_gt.
Proof. intros r1 r2 r3 H12 H23. unfold date_gt in *. by eapply string_ltb_trans. Qed.

(** * Facts about [merge_rates] *)

(** Writing a list of key/value bindings into a dict, one item assignment
    per element, later elements overwriting earlier ones. *)
Section assign_all.
Context {A V : Type} (key : A → string) (val : A → V).

Lemma assign_all_snoc d l x :
  assign_all key val d (l ++ [x]) = <[key x := val x]> (assign_all key val d l).
Proof. unfold assign_all. by rewrite foldl_app. Qed.

Lemma assign_all_lookup_notin d l k :
  k ∉ key <$> l → assign_all key val d l !! k = d !! k.
Proof.
  revert d. induction l as [|x l IH]; intros d Hk; [done|].
  rewrite fmap_cons, not_elem_of_cons in Hk. destruct Hk as [Hne Hk].
  simpl. fold (assign_all key val (<[key x:=val x]> d) l).
  rewrite IH by done. by rewrite lookup_insert_ne.
Qed.

(** The binding of a key is the one of its last occurrence. *)
Lemma assign_all_lookup_last d l1 x l2 :
  key x ∉ key <$> l2 →
  assign_all key val d (l1 ++ x :: l2) !! key x = Some (val x).
Proof.
  intros Hk. unfold assign_all. rewrite foldl_app. simpl.
  match goal with |- foldl _ ?d' l2 !! _ = _ =>
    change (assign_all key val d' l2 !! key x = Some (val x)) end.
  rewrite assign_all_lookup_notin by done. by rewrite lookup_insert_eq.
Qed.

Lemma assign_all_dom d l :
  dom (assign_all key val d l) = list_to_set (key <$> l) ∪ dom d.
Proof.
  revert d. induction l as [|x l IH]; intros d; simpl.
  - set_solver.
  - fold (assign_all key val (<[key x:=val x]> d) l).
    rewrite IH, dom_insert_L. set_solver.
Qed.

Lemma assign_all_NoDup d l :
  NoDup (key <$> l) →
  assign_all key val d l = list_to_map ((λ x, (key x, val x)) <$> l) ∪ d.
Proof.
  revert d. induction l as [|x l IH]; intros d Hnd; simpl.
  - by rewrite (left_id_L ∅ (∪)).
  - rewrite fmap_cons in Hnd. apply NoDup_cons in Hnd as [Hx Hnd].
    fold (assign_all key val (<[key x:=val x]> d) l). rewrite IH by done.
    apply map_eq. intros k.
    rewrite !lookup_union. destruct (decide (key x = k)) as [<-|Hne].
    + rewrite !lookup_insert_eq.
      rewrite (not_elem_of_list_to_map_1 _ (key x)).
      * by destruct (d !! key x).
      * by rewrite <-list_fmap_compose.
    + by rewrite !lookup_insert_ne.
Qed.

(** With pairwise distinct keys the dict does not depend on the order in
    which the bindings are written. *)
Lemma assign_all_Permutation d l1 l2 :
  NoDup (key <$> l1) → l1 ≡ₚ l2 →
  assign_all key val d l1 = assign_all key val d l2.
Proof.
  intros Hnd Hperm. rewrite !assign_all_NoDup; [|by rewrite <-Hperm|done].
  f_equal. apply list_to_map_proper.
  - by rewrite <-list_fmap_compose.
  - by rewrite Hperm.
Qed.
End assign_all.

Lemma to_record_to_item r : to_record (to_item r) = r.
Proof. by destruct r. Qed.

Lemma to_item_to_record x : to_item (to_record x) = x.
Proof. by destruct x. Qed.

Lemma merge_rates_unfold existing new_rates_by_date :
  merge_rates existing new_rates_by_date =
  to_record <$> sorted_reverse
    (map_to_list (merged_by_date existing new_rates_by_date)).
Proof.
  unfold merge_rates, merged_by_date.
  change (foldl (λ d entry, <[date entry:=rates entry]> d) ∅ existing)
    with (assign_all date rates ∅ existing).
  set (d0 := assign_all date rates ∅ existing).
  assert (foldl (λ d '(date, rates), <[date:=rates]> d) d0
            (map_to_list new_rates_by_date)
          = new_rates_by_date ∪ d0) as ->.
  { transitivity (assign_all fst snd d0 (map_to_list new_rates_by_date)).
    - unfold assign_all. generalize d0.
      induction (map_to_list new_rates_by_date) as [|[??] ? IH]; intros d;
        [done|]. simpl. apply IH.
    - rewrite assign_all_NoDup by apply NoDup_fst_map_to_list.
      f_equal. rewrite <-(list_to_map_to_list new_rates_by_date) at 2.
      f_equal. rewrite <-(list_fmap_id (map_to_list new_rates_by_date)) at 2.
      apply list_fmap_ext. by intros ? [??]. }
  apply list_fmap_ext. by intros ? [??].
Qed.

(** The items of a dict have pairwise distinct keys, so the comparison of
    two items by [sorted] is always decided by their dates. *)
Lemma items_dates_NoDup (d : gmap string (gmap string number)) :
  NoDup (map_to_list d).*1.
Proof. apply NoDup_fst_map_to_list. Qed.

(** Sorting by a string key, largest key first. *)
Section by_key.
Context {A : Type} (key : A → string).

#[global] Instance key_ge_trans : Transitive (key_ge key).
Proof. intros x y z ??. unfold key_ge in *. by eapply string_leb_trans. Qed.

#[global] Instance key_ge_total : Total (key_ge key).
Proof.
  intros x y. unfold key_ge. destruct (String.leb_total (key x) (key y)); auto.
Qed.

#[global] Instance key_gt_antisym : AntiSymm (=) (key_gt key).
Proof.
  intros x y Hxy Hyx. unfold key_gt in *.
  pose proof (string_ltb_trans _ _ _ Hxy Hyx) as H.
  by rewrite string_ltb_irrefl in H.
Qed.

Lemma key_ge_ne_gt x y : (key_ge key) x y → key x ≠ key y → (key_gt key) x y.
Proof.
  unfold key_ge, key_gt. rewrite string_leb_ltb.
  intros [Heq|Hlt] Hne; [|done]. by destruct Hne.
Qed.

(** Sorted with pairwise distinct keys is strictly sorted. *)
Lemma StronglySorted_key_ge_strict (l : list A) :
  StronglySorted (key_ge key) l → NoDup (key <$> l) → StronglySorted (key_gt key) l.
Proof.
  induction 1 as [|x l Hl IH Hx]; intros Hnd; [constructor|].
  rewrite fmap_cons in Hnd. apply NoDup_cons in Hnd as [Hnotin Hnd].
  constructor; [by apply IH|].
  rewrite Forall_forall in Hx |- *. intros y Hy.
  apply key_ge_ne_gt; [by apply Hx|].
  intros Heq. apply Hnotin. rewrite Heq. by apply list_elem_of_fmap_2.
Qed.

Lemma merge_sort_key_ge_strict (l : list A) :
  NoDup (key <$> l) → StronglySorted (key_gt key) (merge_sort (key_ge key) l).
Proof.
  intros Hnd. apply StronglySorted_key_ge_strict.
  - apply (StronglySorted_merge_sort (key_ge key)).
  - by rewrite merge_sort_Permutation.
Qed.

(** With pairwise distinct keys the sorted list does not depend on the
    order of the list given. *)
Lemma merge_sort_key_ge_Permutation (l1 l2 : list A) :
  NoDup (key <$> l1) → l1 ≡ₚ l2 →
  merge_sort (key_ge key) l1 = merge_sort (key_ge key) l2.
Proof.
  intros Hnd Hperm. apply (StronglySorted_unique (key_gt key)).
  - by apply merge_sort_key_ge_strict.
  - apply merge_sort_key_ge_strict. by rewrite <-Hperm.
  - by rewrite !merge_sort_Permutation.
Qed.
End by_key.

Lemma sorted_reverse_Permutation_eq (l1 l2 : list (string * gmap string number)) :
  NoDup l1.*1 → l1 ≡ₚ l2 → sorted_reverse l1 = sorted_reverse l2.
Proof. apply (merge_sort_key_ge_Permutation fst). Qed.

Lemma sorted_reverse_strict (l : list (string * gmap string number)) :
  NoDup l.*1 → StronglySorted date_gt (to_record <$> sorted_reverse l).
Proof.
  intros Hnd. apply (StronglySorted_fmap to_record (key_gt fst) date_gt); [done|].
  by apply (merge_sort_key_ge_strict fst).
Qed.

Lemma sorted_reverse_Permutation l : sorted_reverse l ≡ₚ l.
Proof. apply merge_sort_Permutation. Qed.

Lemma merge_rates_Permutation existing new_rates_by_date :
  merge_rates existing new_rates_by_date ≡ₚ
  to_record <$> map_to_list (merged_by_date existing new_rates_by_date).
Proof.
  rewrite merge_rates_unfold. by rewrite sorted_reverse_Permutation.
Qed.

(** A record is in the merged table exactly when the merged dict binds its
    date to its rates. *)
Lemma elem_of_merge_rates existing new_rates_by_date r :
  r ∈ merge_rates existing new_rates_by_date ↔
  merged_by_date existing new_rates_by_date !! date r = Some (rates r).
Proof.
  rewrite merge_rates_Permutation, list_elem_of_fmap. split.
  - intros ([k v] & -> & Hin). by apply elem_of_map_to_list in Hin.
  - intros Hlk. exists (to_item r). split; [by rewrite to_record_to_item|].
    by apply elem_of_map_to_list.
Qed.

Lemma merge_rates_dates existing new_rates_by_date :
  date <$> merge_rates existing new_rates_by_date ≡ₚ
  (map_to_list (merged_by_date existing new_rates_by_date)).*1.
Proof.
  rewrite merge_rates_Permutation, <-list_fmap_compose.
  apply Permutation_refl.
Qed.

Lemma merge_rates_NoDup existing new_rates_by_date :
  NoDup (date <$> merge_rates existing new_rates_by_date).
Proof. rewrite merge_rates_dates. apply items_dates_NoDup. Qed.

Lemma merge_rates_StronglySorted existing new_rates_by_date :
  StronglySorted date_gt (merge_rates existing new_rates_by_date).
Proof.
  rewrite merge_rates_unfold. apply sorted_reverse_strict, items_dates_NoDup.
Qed.

(** Two tables with the same merged dict are merged alike. *)
Lemma merge_rates_ext E1 U1 E2 U2 :
  merged_by_date E1 U1 = merged_by_date E2 U2 →
  merge_rates E1 U1 = merge_rates E2 U2.
Proof. intros Heq. by rewrite !merge_rates_unfold, Heq. Qed.

(** Re-keying a table whose dates are pairwise distinct loses nothing. *)
Lemma rekey_NoDup (existing : list RateRecord) :
  NoDup (date <$> existing) →
  assign_all date rates ∅ existing = list_to_map (to_item <$> existing).
Proof.
  intros Hnd. rewrite assign_all_NoDup by done.
  by rewrite (right_id_L ∅ (∪)).
Qed.

(** Re-keying a merged table gives back the dict it was built from. *)
Lemma rekey_merge_rates existing new_rates_by_date :
  assign_all date rates ∅ (merge_rates existing new_rates_by_date)
  = merged_by_date existing new_rates_by_date.
Proof.
  rewrite rekey_NoDup by apply merge_rates_NoDup.
  rewrite merge_rates_unfold, <-list_fmap_compose.
  rewrite (list_fmap_ext _ id _ (λ _ x _, to_item_to_record x)), list_fmap_id.
  rewrite <-(list_to_map_to_list (merged_by_date _ _)) at 2.
  apply list_to_map_proper.
  - unfold sorted_reverse. rewrite merge_sort_Permutation.
    apply items_dates_NoDup.
  - apply sorted_reverse_Permutation.
Qed.

Example transform_two_days :
  transform_bsi_data
    [ {| get_date := Some "2024-12-30"; get_code := Some "USD";
         get_value := Some (PyFloat 1.0444) |};
      {| get_date := Some "2024-12-30"; get_code := Some "GBP";
         get_value := Some (PyFloat 0.8295) |};
      {| get_date := Some "2024-12-31"; get_code := Some "USD";
         get_value := Some (PyInt 1) |} ]
  = Some {[ "2024-12-30" := {[ "USD" := PyFloat 1.0444; "GBP" := PyFloat 0.8295 ]};
            "2024-12-31" := {[ "USD" := PyInt 1 ]} ]}.
Proof. vm_compute. reflexivity. Qed.

Example merge_end_to_end :
  merge_rates
    [ {| date := "2024-12-30"; rates := usd_only (PyFloat 1.04) |} ]
    {[ "2024-12-31" := usd_only (PyFloat 1.05);
       "2024-12-30" := usd_only (PyFloat 1.045) ]}
  = [ {| date := "2024-12-31"; rates := usd_only (PyFloat 1.05) |};
      {| date := "2024-12-30"; rates := usd_only (PyFloat 1.045) |} ].
Proof. vm_compute. reflexivity. Qed.

Example merge_overwrite :
  merge_rates [jan01] jan01_update
  = [ {| date := "2024-01-01";
         rates := {[ "USD" := PyFloat 1.1; "GBP" := PyFloat 0.9 ]} |} ].
Proof. vm_compute. reflexivity. Qed.

Example merge_insertion_order :
  date <$> merge_rates [jan01] {[ "2024-02-01" := rates feb01 ]}
  = [ "2024-02-01"; "2024-01-01" ].
Proof. vm_compute. reflexivity. Qed.

Example merge_duplicate_dates :
  merge_rates [jan01; feb01; jan01_late] ∅ = [feb01; jan01_late].
Proof. vm_compute. reflexivity. Qed.

(** * Properties of the merge *)

(** C2. Whatever the two inputs, the merged table has no two records with
    the same date, and the date of each record is strictly greater, as a
    string, than the date of the record that follows it (and so than the
    date of every later record). *)
Theorem merge_rates_unique_strictly_descending
    (existing : list RateRecord)
    (new_rates_by_date : gmap string (gmap string number)) :
  NoDup (date <$> merge_rates existing new_rates_by_date) ∧
  Sorted date_gt (merge_rates existing new_rates_by_date) ∧
  StronglySorted date_gt (merge_rates existing new_rates_by_date).
Proof.
  split; [apply merge_rates_NoDup|].
  split; [apply StronglySorted_Sorted|]; apply merge_rates_StronglySorted.
Qed.

(** C9. The dates of the merged table are exactly the dates of the existing
    records together with the keys of the updates. *)
Theorem merge_rates_dates_union
    (existing : list RateRecord)
    (new_rates_by_date : gmap string (gmap string number)) :
  list_to_set (date <$> merge_rates existing new_rates_by_date)
  =@{gset string} list_to_set (date <$> existing) ∪ dom new_rates_by_date.
Proof.
  apply set_eq. intros k.
  rewrite elem_of_list_to_set, merge_rates_dates.
  rewrite <-(elem_of_list_to_set (C := gset string)), <-dom_list_to_map_L.
  rewrite list_to_map_to_list. unfold merged_by_date.
  rewrite dom_union_L, assign_all_dom. set_solver.
Qed.

(** C3. For a date bound by the updates, the merged table has a record for
    that date, and every record it has for that date carries the update's
    rates as a whole: a code the update does not list is not in the
    record, whatever the existing table held for that date. *)
Theorem merge_rates_update_replaces
    (existing : list RateRecord)
    (new_rates_by_date : gmap string (gmap string number))
    (d : string) (new_rates : gmap string number) :
  new_rates_by_date !! d = Some new_rates →
  {| date := d; rates := new_rates |} ∈ merge_rates existing new_rates_by_date ∧
  ∀ r, r ∈ merge_rates existing new_rates_by_date → date r = d →
    rates r = new_rates ∧
    ∀ code, new_rates !! code = None → rates r !! code = None.
Proof.
  intros Hnew.
  assert (merged_by_date existing new_rates_by_date !! d = Some new_rates)
    as Hm by (unfold merged_by_date; by apply lookup_union_Some_l).
  split; [by apply elem_of_merge_rates|].
  intros r Hr Hd. apply elem_of_merge_rates in Hr. rewrite Hd, Hm in Hr.
  assert (rates r = new_rates) as -> by congruence. done.
Qed.

Lemma merge_rates_update_replaces_witness :
  jan01_update !! "2024-01-01"
    = Some ({[ "USD" := PyFloat 1.1; "GBP" := PyFloat 0.9 ]} : gmap string number) ∧
  ({| date := "2024-01-01";
      rates := {[ "USD" := PyFloat 1.1; "GBP" := PyFloat 0.9 ]} |}
     ∈ merge_rates [jan01_late] jan01_update ∧
   ∀ r, r ∈ merge_rates [jan01_late] jan01_update → date r = "2024-01-01" →
     rates r = {[ "USD" := PyFloat 1.1; "GBP" := PyFloat 0.9 ]} ∧
     ∀ code, ({[ "USD" := PyFloat 1.1; "GBP" := PyFloat 0.9 ]} : gmap string number)
               !! code = None → rates r !! code = None).
Proof.
  split; [vm_compute; reflexivity|].
  apply (merge_rates_update_replaces [jan01_late] jan01_update "2024-01-01").
  vm_compute. reflexivity.
Defined.

(** C6. When several existing records share a date that the updates do not
    bind, the merged table keeps, for that date, the last of them in
    sequence order and no other: the earlier ones are gone. *)
Theorem merge_rates_last_duplicate_wins
    (before after : list RateRecord) (r : RateRecord)
    (new_rates_by_date : gmap string (gmap string number)) :
  date r ∉ date <$> after →
  new_rates_by_date !! date r = None →
  r ∈ merge_rates (before ++ r :: after) new_rates_by_date ∧
  ∀ r', r' ∈ merge_rates (before ++ r :: after) new_rates_by_date →
    date r' = date r → r' = r.
Proof.
  intros Hlast Hnew.
  assert (merged_by_date (before ++ r :: after) new_rates_by_date !! date r
          = Some (rates r)) as Hm.
  { unfold merged_by_date. rewrite lookup_union_r by done.
    by apply assign_all_lookup_last. }
  split; [by apply elem_of_merge_rates|].
  intros r' Hr' Hd. apply elem_of_merge_rates in Hr'. rewrite Hd, Hm in Hr'.
  destruct r, r'; simpl in *. congruence.
Qed.

Lemma merge_rates_last_duplicate_wins_witness :
  (date jan01_late ∉ date <$> [feb01]) ∧
  mar01_update !! date jan01_late = None ∧
  jan01_late ∈ merge_rates ([jan01] ++ jan01_late :: [feb01]) mar01_update ∧
  ∀ r', r' ∈ merge_rates ([jan01] ++ jan01_late :: [feb01]) mar01_update →
    date r' = date jan01_late → r' = jan01_late.
Proof.
  assert (date jan01_late ∉ date <$> [feb01]) as Hlast.
  { apply (bool_decide_unpack _). vm_compute. exact I. }
  assert (mar01_update !! date jan01_late = None) as Hnew
    by (vm_compute; reflexivity).
  split; [exact Hlast|]. split; [exact Hnew|].
  exact (merge_rates_last_duplicate_wins [jan01] [feb01] jan01_late
           mar01_update Hlast Hnew).
Defined.

(** C7. Merging is a function of its two arguments, and merging the same
    updates into the merged table again changes nothing. *)
Theorem merge_rates_idempotent
    (existing : list RateRecord)
    (new_rates_by_date : gmap string (gmap string number)) :
  merge_rates (merge_rates existing new_rates_by_date) new_rates_by_date
  = merge_rates existing new_rates_by_date ∧
  ∀ existing' new_rates_by_date',
    existing' = existing → new_rates_by_date' = new_rates_by_date →
    merge_rates existing' new_rates_by_date'
    = merge_rates existing new_rates_by_date.
Proof.
  split; [|by intros ?? -> ->].
  apply merge_rates_ext. unfold merged_by_date at 1.
  rewrite rekey_merge_rates. unfold merged_by_date.
  by rewrite (assoc_L (∪)), (idemp_L (∪)).
Qed.

Lemma merge_rates_idempotent_witness :
  merge_rates (merge_rates [jan01; feb01; jan01_late] jan01_update) jan01_update
  = merge_rates [jan01; feb01; jan01_late] jan01_update ∧
  ∀ existing' new_rates_by_date',
    existing' = [jan01; feb01; jan01_late] → new_rates_by_date' = jan01_update →
    merge_rates existing' new_rates_by_date'
    = merge_rates [jan01; feb01; jan01_late] jan01_update.
Proof. exact (merge_rates_idempotent [jan01; feb01; jan01_late] jan01_update). Defined.

(** C1, as the code has it. For a table whose dates are pairwise distinct
    (the empty table included), merging no updates gives the table
    re-sorted in descending date order: the same records, each with the
    rates it had, the later date first. *)
Theorem merge_rates_empty_updates (existing : list RateRecord) :
  NoDup (date <$> existing) →
  merge_rates existing ∅ = resorted_descending existing ∧
  merge_rates existing ∅ ≡ₚ existing ∧
  StronglySorted date_gt (merge_rates existing ∅).
Proof.
  intros Hnd.
  assert (merge_rates existing ∅ ≡ₚ existing) as Hperm.
  { rewrite merge_rates_Permutation. unfold merged_by_date.
    rewrite (left_id_L ∅ (∪)), rekey_NoDup by done.
    rewrite map_to_list_to_map.
    - rewrite <-list_fmap_compose.
      rewrite (list_fmap_ext _ id _ (λ _ x _, to_record_to_item x)).
      by rewrite list_fmap_id.
    - by rewrite <-list_fmap_compose. }
  split; [|split; [done|apply merge_rates_StronglySorted]].
  apply (StronglySorted_unique (key_gt date)).
  - apply merge_rates_StronglySorted.
  - by apply (merge_sort_key_ge_strict date).
  - unfold resorted_descending. by rewrite merge_sort_Permutation.
Qed.

Lemma merge_rates_empty_updates_witness :
  NoDup (date <$> [jan01; feb01]) ∧
  merge_rates [jan01; feb01] ∅ = resorted_descending [jan01; feb01] ∧
  merge_rates [jan01; feb01] ∅ ≡ₚ [jan01; feb01] ∧
  StronglySorted date_gt (merge_rates [jan01; feb01] ∅).
Proof.
  assert (NoDup (date <$> [jan01; feb01])) as Hnd.
  { apply (bool_decide_unpack _). vm_compute. exact I. }
  split; [exact Hnd|].
  exact (merge_rates_empty_updates [jan01; feb01] Hnd).
Defined.

(** C1, as stated, fails on a table with a repeated date: the merge keeps
    one record per date, so the result is shorter than the table and is
    not a rearrangement of it. *)
Lemma merge_rates_empty_updates_duplicate_date :
  [jan01; jan01_late] ≠ [] ∧
  merge_rates [jan01; jan01_late] ∅ = [jan01_late] ∧
  ¬ (merge_rates [jan01; jan01_late] ∅ ≡ₚ [jan01; jan01_late]) ∧
  merge_rates [jan01; jan01_late] ∅ ≠ resorted_descending [jan01; jan01_late].
Proof.
  assert (merge_rates [jan01; jan01_late] ∅ = [jan01_late]) as Hrun
    by (vm_compute; reflexivity).
  split; [done|]. split; [exact Hrun|]. rewrite Hrun. split.
  - intros Hperm. apply Permutation_length in Hperm. simpl in Hperm. lia.
  - intros Heq. apply (f_equal length) in Heq.
    unfold resorted_descending in Heq.
    rewrite (Permutation_length (merge_sort_Permutation _ _)) in Heq.
    simpl in Heq. lia.
Qed.

(** * Facts about [transform_bsi_data] *)

Lemma str_bool_true (s : string) : str_bool s = true ↔ s ≠ "".
Proof.
  unfold str_bool. rewrite negb_true_iff. apply String.eqb_neq.
Qed.

Lemma transform_entry_invalid rates_by_date entry :
  invalid_entry entry → transform_entry rates_by_date entry = Some rates_by_date.
Proof.
  unfold invalid_entry, absent_or_falsy_str, absent_or_falsy_number,
    transform_entry.
  destruct entry as [[d|] [c|] [v|]]; simpl; try done.
  intros [[?| [= ->]] | [[?| [= ->]] | [?|(v' & [= <-] & Hz)]]]; try done.
  - by destruct (str_bool d).
  - unfold number_bool. rewrite Hz. by destruct (str_bool d), (str_bool c).
Qed.

Lemma transform_entry_observes rates_by_date entry d c v :
  observes entry d c v →
  transform_entry rates_by_date entry
  = Some (<[d := <[c := v]> (default ∅ (rates_by_date !! d))]> rates_by_date).
Proof.
  intros (Hd & Hc & Hv & Hdne & Hcne & Hz). unfold transform_entry.
  rewrite Hd, Hc, Hv. simpl. unfold number_bool. rewrite Hz.
  apply str_bool_true in Hdne, Hcne. rewrite Hdne, Hcne. simpl.
  unfold getitem. case_bool_decide as Hdom.
  - rewrite lookup_insert_eq. simpl.
    apply not_elem_of_dom in Hdom. rewrite Hdom. simpl.
    by rewrite insert_insert_eq.
  - apply elem_of_dom in Hdom as [inner Hinner].
    by rewrite Hinner.
Qed.

Lemma invalid_or_observes entry :
  invalid_entry entry ∨ ∃ d c v, observes entry d c v.
Proof.
  unfold invalid_entry, absent_or_falsy_str, absent_or_falsy_number, observes.
  destruct entry as [[d|] [c|] [v|]]; simpl; auto.
  destruct (decide (d = "")) as [->|?]; [auto|].
  destruct (decide (c = "")) as [->|?]; [auto|].
  destruct (number_is_zero v) eqn:Hz; [eauto 10|].
  right. by exists d, c, v.
Qed.

Lemma invalid_not_observes entry d c v :
  invalid_entry entry → ¬ observes entry d c v.
Proof.
  intros Hinv (Hd & Hc & Hv & Hdne & Hcne & Hz).
  destruct Hinv as [[?|?] | [[?|?] | [?|(v' & ? & ?)]]]; congruence.
Qed.

Lemma transform_entry_total rates_by_date entry :
  is_Some (transform_entry rates_by_date entry).
Proof.
  destruct (invalid_or_observes entry) as [Hinv|(d & c & v & Hobs)].
  - by rewrite transform_entry_invalid.
  - by erewrite transform_entry_observes.
Qed.

Lemma transform_loop_app rates_by_date l1 l2 :
  transform_loop rates_by_date (l1 ++ l2)
  = transform_loop rates_by_date l1 ≫= λ d, transform_loop d l2.
Proof.
  revert rates_by_date. induction l1 as [|e l1 IH]; intros m; simpl; [done|].
  destruct (transform_entry m e) as [m'|]; simpl; [apply IH|done].
Qed.

Lemma transform_loop_total rates_by_date bsi_data :
  is_Some (transform_loop rates_by_date bsi_data).
Proof.
  revert rates_by_date. induction bsi_data as [|e l IH]; intros m; simpl; [done|].
  destruct (transform_entry_total m e) as [m' ->]. simpl. apply IH.
Qed.

Lemma transform_loop_invalid rates_by_date before entry after :
  invalid_entry entry →
  transform_loop rates_by_date (before ++ entry :: after)
  = transform_loop rates_by_date (before ++ after).
Proof.
  intros Hinv. rewrite !transform_loop_app.
  destruct (transform_loop rates_by_date before) as [m|]; simpl; [|done].
  by rewrite transform_entry_invalid.
Qed.

Lemma transform_entry_nonempty rates_by_date entry rates_by_date' :
  rate_sets_nonempty rates_by_date →
  transform_entry rates_by_date entry = Some rates_by_date' →
  rate_sets_nonempty rates_by_date'.
Proof.
  intros Hinv Hstep.
  destruct (invalid_or_observes entry) as [Hbad|(d & c & v & Hobs)].
  - rewrite transform_entry_invalid in Hstep by done. by simplify_eq.
  - rewrite (transform_entry_observes _ _ _ _ _ Hobs) in Hstep. simplify_eq.
    intros d' inner Hlk. destruct (decide (d = d')) as [<-|Hne].
    + rewrite lookup_insert_eq in Hlk. simplify_eq. split.
      * apply insert_non_empty.
      * exists c, v. apply lookup_insert_eq.
    + rewrite lookup_insert_ne in Hlk by done. by apply (Hinv d').
Qed.

Lemma transform_loop_nonempty bsi_data rates_by_date rates_by_date' :
  rate_sets_nonempty rates_by_date →
  transform_loop rates_by_date bsi_data = Some rates_by_date' →
  rate_sets_nonempty rates_by_date'.
Proof.
  revert rates_by_date. induction bsi_data as [|e l IH]; intros m Hinv; simpl.
  - by intros [= <-].
  - destruct (transform_entry m e) as [m1|] eqn:Hstep; simpl; [|done].
    apply IH. by eapply transform_entry_nonempty.
Qed.

(** An entry leaves the rate of every other (date, code) pair alone. *)
Lemma transform_entry_rate_at_other rates_by_date entry rates_by_date' d c :
  (∀ v, ¬ observes entry d c v) →
  transform_entry rates_by_date entry = Some rates_by_date' →
  rate_at rates_by_date' d c = rate_at rates_by_date d c.
Proof.
  intros Hother Hstep.
  destruct (invalid_or_observes entry) as [Hbad|(d' & c' & v' & Hobs)].
  - rewrite transform_entry_invalid in Hstep by done. by simplify_eq.
  - rewrite (transform_entry_observes _ _ _ _ _ Hobs) in Hstep. simplify_eq.
    unfold rate_at. destruct (decide (d' = d)) as [->|Hne].
    + rewrite lookup_insert_eq. simpl.
      assert (c' ≠ c) as Hc by (intros ->; by apply (Hother v')).
      rewrite lookup_insert_ne by done.
      by destruct (rates_by_date !! d).
    + by rewrite lookup_insert_ne.
Qed.

Lemma transform_entry_rate_at rates_by_date entry d c v :
  observes entry d c v →
  ∃ rates_by_date', transform_entry rates_by_date entry = Some rates_by_date' ∧
    rate_at rates_by_date' d c = Some v.
Proof.
  intros Hobs. eexists. split; [by apply transform_entry_observes|].
  unfold rate_at. rewrite lookup_insert_eq. simpl. apply lookup_insert_eq.
Qed.

Lemma transform_loop_rate_at_other bsi_data rates_by_date d c :
  (∀ entry v, entry ∈ bsi_data → ¬ observes entry d c v) →
  ∃ rates_by_date', transform_loop rates_by_date bsi_data = Some rates_by_date' ∧
    rate_at rates_by_date' d c = rate_at rates_by_date d c.
Proof.
  revert rates_by_date. induction bsi_data as [|e l IH]; intros m Hother; simpl.
  - by exists m.
  - destruct (transform_entry_total m e) as [m1 Hstep]. rewrite Hstep. simpl.
    destruct (IH m1) as (m2 & Hloop & Hrate).
    { intros e' v' Hin. apply Hother. by right. }
    exists m2. split; [done|]. rewrite Hrate.
    eapply transform_entry_rate_at_other; [|done].
    intros v'. apply Hother. by left.
Qed.

(** * Properties of the transform *)

(** C4. An entry whose date, code or value is absent or falsy contributes
    nothing: the result is the one obtained without it. A value of zero,
    of either kind and of either sign, is such a value. The transform
    returns a mapping on every input, and an entry with a null date alone
    gives the empty mapping. *)
Theorem transform_drops_invalid :
  (∀ before entry after, invalid_entry entry →
     transform_bsi_data (before ++ entry :: after)
     = transform_bsi_data (before ++ after)) ∧
  (∀ d c zero, zero ∈ [PyInt 0; PyFloat 0; PyFloat (-0)] →
     invalid_entry (observation d c zero)) ∧
  (∀ bsi_data, is_Some (transform_bsi_data bsi_data)) ∧
  transform_bsi_data
    [ {| get_date := None; get_code := Some "USD";
         get_value := Some (PyFloat 1.1) |} ] = Some ∅.
Proof.
  split; [|split; [|split]].
  - intros before entry after Hinv. by apply transform_loop_invalid.
  - intros d c zero Hzero. right. right. right. exists zero.
    split; [done|]. set_unfold. by destruct Hzero as [->|[->|[->|[]]]].
  - intros bsi_data. apply transform_loop_total.
  - reflexivity.
Qed.

Lemma transform_drops_invalid_witness :
  invalid_entry (observation "2024-12-30" "USD" (PyFloat 0)) ∧
  transform_bsi_data
    ([observation "2024-12-30" "GBP" (PyFloat 0.83)]
       ++ observation "2024-12-30" "USD" (PyFloat 0)
       :: [observation "2024-12-31" "USD" (PyInt 1)])
  = transform_bsi_data
      ([observation "2024-12-30" "GBP" (PyFloat 0.83)]
         ++ [observation "2024-12-31" "USD" (PyInt 1)]).
Proof.
  assert (invalid_entry (observation "2024-12-30" "USD" (PyFloat 0))) as Hinv.
  { apply (proj1 (proj2 transform_drops_invalid)). set_solver. }
  split; [exact Hinv|].
  exact (proj1 transform_drops_invalid _ _ _ Hinv).
Defined.

(** C8. One valid observation gives the mapping with that one date, that
    one code and that value. *)
Theorem transform_single_observation (d c : string) (v : number) :
  d ≠ "" → c ≠ "" → number_is_zero v = false →
  transform_bsi_data [observation d c v] = Some {[ d := {[ c := v ]} ]}.
Proof.
  intros Hd Hc Hv. unfold transform_bsi_data. simpl.
  rewrite (transform_entry_observes _ _ d c v) by done. simpl.
  by rewrite lookup_empty.
Qed.

Lemma transform_single_observation_witness :
  "2024-12-30" ≠ "" ∧ "USD" ≠ "" ∧
  number_is_zero (PyFloat 1.0444) = false ∧
  transform_bsi_data [observation "2024-12-30" "USD" (PyFloat 1.0444)]
  = Some {[ "2024-12-30" := {[ "USD" := PyFloat 1.0444 ]} ]}.
Proof.
  assert ("2024-12-30" ≠ "") as Hd by discriminate.
  assert ("USD" ≠ "") as Hc by discriminate.
  assert (number_is_zero (PyFloat 1.0444) = false) as Hv by reflexivity.
  split; [exact Hd|]. split; [exact Hc|]. split; [exact Hv|].
  exact (transform_single_observation _ _ _ Hd Hc Hv).
Defined.

(** C5. When a (date, code) pair is observed more than once, the value of
    its last valid observation is the one in the result; so two
    observations of the same pair, with values 1.0 and then 2.0, give the
    single rate 2.0. *)
Theorem transform_last_occurrence_wins
    (before after : list Entry) (entry : Entry) (d c : string) (v : number) :
  observes entry d c v →
  (∀ later v', later ∈ after → ¬ observes later d c v') →
  (∃ rates_by_date inner,
     transform_bsi_data (before ++ entry :: after) = Some rates_by_date ∧
     rates_by_date !! d = Some inner ∧ inner !! c = Some v) ∧
  transform_bsi_data [observation d c (PyFloat 1.0); observation d c (PyFloat 2.0)]
  = Some {[ d := {[ c := PyFloat 2.0 ]} ]}.
Proof.
  intros Hobs Hlast. split.
  - unfold transform_bsi_data. rewrite transform_loop_app.
    destruct (transform_loop_total ∅ before) as [m0 ->]. simpl.
    destruct (transform_entry_rate_at m0 entry d c v Hobs) as (m1 & -> & Hrate).
    simpl.
    destruct (transform_loop_rate_at_other after m1 d c Hlast)
      as (m2 & -> & Hrate2).
    rewrite Hrate in Hrate2. unfold rate_at in Hrate2.
    destruct (m2 !! d) as [inner|] eqn:Hd; [|done].
    by exists m2, inner.
  - destruct Hobs as (_ & _ & _ & Hd & Hc & _).
    unfold transform_bsi_data. simpl.
    rewrite (transform_entry_observes _ _ d c (PyFloat 1.0)) by done. simpl.
    rewrite (transform_entry_observes _ _ d c (PyFloat 2.0)) by done. simpl.
    rewrite lookup_empty, lookup_insert_eq. simpl.
    by rewrite !insert_insert_eq.
Qed.

Lemma transform_last_occurrence_wins_witness :
  observes (observation "2024-12-30" "USD" (PyFloat 1.05))
    "2024-12-30" "USD" (PyFloat 1.05) ∧
  (∃ rates_by_date inner,
     transform_bsi_data
       ([observation "2024-12-30" "USD" (PyFloat 1.04)]
          ++ observation "2024-12-30" "USD" (PyFloat 1.05)
          :: [observation "2024-12-30" "USD" (PyInt 0);
              observation "2024-12-30" "GBP" (PyFloat 0.83)])
     = Some rates_by_date ∧
     rates_by_date !! "2024-12-30" = Some inner ∧
     inner !! "USD" = Some (PyFloat 1.05)) ∧
  transform_bsi_data
    [observation "2024-12-30" "USD" (PyFloat 1.0);
     observation "2024-12-30" "USD" (PyFloat 2.0)]
  = Some {[ "2024-12-30" := {[ "USD" := PyFloat 2.0 ]} ]}.
Proof.
  assert (observes (observation "2024-12-30" "USD" (PyFloat 1.05))
            "2024-12-30" "USD" (PyFloat 1.05)) as Hobs.
  { unfold observes. simpl. repeat split; discriminate. }
  split; [exact Hobs|].
  apply (transform_last_occurrence_wins
           [observation "2024-12-30" "USD" (PyFloat 1.04)]
           [observation "2024-12-30" "USD" (PyInt 0);
            observation "2024-12-30" "GBP" (PyFloat 0.83)]
           _ _ _ _ Hobs).
  intros later v' Hin (Hd & Hc & Hv & _ & _ & Hz).
  apply elem_of_cons in Hin as [->|Hin].
  - simpl in Hv. injection Hv as <-. discriminate Hz.
  - apply list_elem_of_singleton in Hin as ->. discriminate Hc.
Defined.

(** C10. The transform returns a mapping in which every date is bound to a
    rate set that is not empty: it has at least one code. *)
Theorem transform_rate_sets_nonempty (bsi_data : list Entry) :
  ∃ rates_by_date, transform_bsi_data bsi_data = Some rates_by_date ∧
    ∀ d inner, rates_by_date !! d = Some inner →
      inner ≠ ∅ ∧ ∃ c v, inner !! c = Some v.
Proof.
  destruct (transform_loop_total ∅ bsi_data) as [m Hm].
  exists m. split; [done|].
  apply (transform_loop_nonempty bsi_data ∅ m); [|done].
  intros d inner Hlk. by rewrite lookup_empty in Hlk.
Qed.

Lemma transform_rate_sets_nonempty_witness :
  ∃ rates_by_date,
    transform_bsi_data
      [observation "2024-12-30" "USD" (PyFloat 1.04);
       observation "2024-12-31" "" (PyFloat 1.05);
       observation "2024-12-31" "USD" (PyInt 0)]
    = Some rates_by_date ∧
    ∀ d inner, rates_by_date !! d = Some inner →
      inner ≠ ∅ ∧ ∃ c v, inner !! c = Some v.
Proof.
  exact (transform_rate_sets_nonempty
           [observation "2024-12-30" "USD" (PyFloat 1.04);
            observation "2024-12-31" "" (PyFloat 1.05);
            observation "2024-12-31" "USD" (PyInt 0)]).
Defined.

(** * The whole script on a sample *)

Example main_sample_run :
  main sample_env sample_world
  = (Returned,
     {| file := Some
          [ {| date := "2024-12-31"; rates := {[ "USD" := PyFloat 1.05 ]} |};
            {| date := "2024-12-30";
               rates := {[ "USD" := PyFloat 1.04; "GBP" := PyFloat 0.83 ]} |};
            feb01; jan01_late ];
        stdout :=
          [ UpdatingFor 2024; FetchingRatesFrom 2024; FetchedEntries 4;
            TransformedInto 2; LoadedEntries 3; AddedUpdated 2 0;
            SavedEntries 4; Done ] |}).
Proof. vm_compute. reflexivity. Qed.

(** * More about the transform *)

Lemma observes_functional entry d c v d' c' v' :
  observes entry d c v → observes entry d' c' v' → d = d' ∧ c = c' ∧ v = v'.
Proof.
  intros (Hd & Hc & Hv & _) (Hd' & Hc' & Hv' & _).
  rewrite Hd in Hd'. rewrite Hc in Hc'. rewrite Hv in Hv'. by simplify_eq.
Qed.

Lemma transform_entry_rate_at_inv rates_by_date entry rates_by_date' d c v :
  transform_entry rates_by_date entry = Some rates_by_date' →
  rate_at rates_by_date' d c = Some v →
  observes entry d c v ∨ rate_at rates_by_date d c = Some v.
Proof.
  intros Hstep Hrate.
  destruct (invalid_or_observes entry) as [Hbad|(d' & c' & v' & Hobs)].
  - rewrite transform_entry_invalid in Hstep by done. simplify_eq. by right.
  - destruct (decide (d' = d ∧ c' = c)) as [[-> ->]|Hne].
    + destruct (transform_entry_rate_at rates_by_date entry d c v' Hobs)
        as (m & Hm & Hv). rewrite Hstep in Hm. simplify_eq. by left.
    + right. rewrite <-Hrate. symmetry.
      eapply transform_entry_rate_at_other; [|done].
      intros v0 Hobs0. apply Hne.
      by destruct (observes_functional _ _ _ _ _ _ _ Hobs Hobs0) as (-> & -> & _).
Qed.

Lemma transform_loop_rate_at_inv bsi_data rates_by_date rates_by_date' d c v :
  transform_loop rates_by_date bsi_data = Some rates_by_date' →
  rate_at rates_by_date' d c = Some v →
  (∃ entry, entry ∈ bsi_data ∧ observes entry d c v) ∨
  rate_at rates_by_date d c = Some v.
Proof.
  revert rates_by_date. induction bsi_data as [|e l IH]; intros m; simpl.
  - intros [= <-] ?. by right.
  - destruct (transform_entry m e) as [m1|] eqn:Hstep; simpl; [|done].
    intros Hloop Hrate. destruct (IH m1 Hloop Hrate) as [(e' & Hin & Hobs)|Hm1].
    + left. exists e'. split; [by right|done].
    + destruct (transform_entry_rate_at_inv _ _ _ _ _ _ Hstep Hm1) as [Hobs|Hm].
      * left. exists e. split; [by left|done].
      * by right.
Qed.

Lemma transform_entry_dom rates_by_date entry rates_by_date' d :
  transform_entry rates_by_date entry = Some rates_by_date' →
  d ∈ dom rates_by_date' ↔
  d ∈ dom rates_by_date ∨ ∃ c v, observes entry d c v.
Proof.
  intros Hstep.
  destruct (invalid_or_observes entry) as [Hbad|(d' & c' & v' & Hobs)].
  - rewrite transform_entry_invalid in Hstep by done. simplify_eq.
    split; [by left|]. intros [?|(c & v & Hobs)]; [done|].
    by destruct (invalid_not_observes _ _ _ _ Hbad Hobs).
  - rewrite (transform_entry_observes _ _ _ _ _ Hobs) in Hstep. simplify_eq.
    rewrite dom_insert_L, elem_of_union, elem_of_singleton. split.
    + intros [->|?]; [right; eauto|by left].
    + intros [?|(c & v & Hobs')]; [by right|left].
      by destruct (observes_functional _ _ _ _ _ _ _ Hobs Hobs') as (-> & _).
Qed.

Lemma transform_loop_dom bsi_data rates_by_date rates_by_date' d :
  transform_loop rates_by_date bsi_data = Some rates_by_date' →
  d ∈ dom rates_by_date' ↔
  d ∈ dom rates_by_date ∨
  ∃ entry c v, entry ∈ bsi_data ∧ observes entry d c v.
Proof.
  revert rates_by_date. induction bsi_data as [|e l IH]; intros m; simpl.
  - intros [= <-]. split; [by left|]. intros [?|(e & c & v & Hin & _)]; [done|].
    by apply elem_of_nil in Hin.
  - destruct (transform_entry m e) as [m1|] eqn:Hstep; simpl; [|done].
    intros Hloop. rewrite (IH m1 Hloop), (transform_entry_dom _ _ _ _ Hstep).
    split.
    + intros [[?|(c & v & Hobs)]|(e' & c & v & Hin & Hobs)]; [by left| |].
      * right. exists e, c, v. split; [by left|done].
      * right. exists e', c, v. split; [by right|done].
    + intros [?|(e' & c & v & Hin & Hobs)]; [by left; left|].
      apply elem_of_cons in Hin as [->|Hin]; [left; right; eauto|].
      right. eauto.
Qed.

(** X1. The transform invents nothing: every rate of the result is the
    value of a valid observation of the input for that date and code. So
    no empty date, no empty code and no zero rate is ever in the result. *)
Theorem transform_rates_come_from_observations (bsi_data : list Entry) :
  ∃ rates_by_date, transform_bsi_data bsi_data = Some rates_by_date ∧
    ∀ d inner c v, rates_by_date !! d = Some inner → inner !! c = Some v →
      (∃ entry, entry ∈ bsi_data ∧ observes entry d c v) ∧
      d ≠ "" ∧ c ≠ "" ∧ number_is_zero v = false.
Proof.
  destruct (transform_loop_total ∅ bsi_data) as [m Hm].
  exists m. split; [done|]. intros d inner c v Hd Hc.
  assert (rate_at m d c = Some v) as Hrate
    by (unfold rate_at; by rewrite Hd).
  destruct (transform_loop_rate_at_inv _ _ _ _ _ _ Hm Hrate)
    as [(e & Hin & Hobs)|Hempty].
  - split; [by exists e|]. by destruct Hobs as (_ & _ & _ & ? & ? & ?).
  - unfold rate_at in Hempty. by rewrite lookup_empty in Hempty.
Qed.

Lemma transform_rates_come_from_observations_witness :
  ∃ rates_by_date, transform_bsi_data dec30_data = Some rates_by_date ∧
    ∀ d inner c v, rates_by_date !! d = Some inner → inner !! c = Some v →
      (∃ entry, entry ∈ dec30_data ∧ observes entry d c v) ∧
      d ≠ "" ∧ c ≠ "" ∧ number_is_zero v = false.
Proof. exact (transform_rates_come_from_observations dec30_data). Defined.

(** X2. The dates of the result are exactly the dates of the valid
    observations of the input. *)
Theorem transform_dates_are_observed_dates (bsi_data : list Entry) :
  ∃ rates_by_date, transform_bsi_data bsi_data = Some rates_by_date ∧
    ∀ d, d ∈ dom rates_by_date ↔
      ∃ entry c v, entry ∈ bsi_data ∧ observes entry d c v.
Proof.
  destruct (transform_loop_total ∅ bsi_data) as [m Hm].
  exists m. split; [done|]. intros d.
  rewrite (transform_loop_dom _ _ _ _ Hm), dom_empty_L. set_solver.
Qed.

(** X3. The result is the empty mapping exactly when every entry of the
    input has an absent or falsy field. *)
Theorem transform_empty_iff_all_invalid (bsi_data : list Entry) :
  transform_bsi_data bsi_data = Some ∅ ↔ Forall invalid_entry bsi_data.
Proof.
  destruct (transform_dates_are_observed_dates bsi_data) as (m & Hm & Hdom).
  rewrite Hm, Forall_forall. split.
  - intros [= ->] e Hin.
    destruct (invalid_or_observes e) as [?|(d & c & v & Hobs)]; [done|].
    assert (d ∈ dom (∅ : gmap string (gmap string number))) as Hd
      by (apply Hdom; eauto).
    by rewrite dom_empty_L in Hd.
  - intros Hall. f_equal. apply dom_empty_iff_L, set_eq. intros d.
    rewrite Hdom. split; [|set_solver].
    intros (e & c & v & Hin & Hobs).
    by destruct (invalid_not_observes _ _ _ _ (Hall e Hin) Hobs).
Qed.

Lemma overlay_rates_empty_r first : overlay_rates first ∅ = first.
Proof.
  apply map_eq. intros d. unfold overlay_rates.
  rewrite lookup_union_with, lookup_empty. by destruct (first !! d).
Qed.

(** Storing a rate in the overlay is storing it in the second mapping. *)
Lemma overlay_rates_store first second d c (v : number) :
  <[d := <[c := v]> (default ∅ (overlay_rates first second !! d))]>
    (overlay_rates first second)
  = overlay_rates first (<[d := <[c := v]> (default ∅ (second !! d))]> second).
Proof.
  apply map_eq. intros k. unfold overlay_rates.
  destruct (decide (d = k)) as [<-|Hne].
  - rewrite lookup_insert_eq, !lookup_union_with, lookup_insert_eq.
    destruct (first !! d) as [r1|], (second !! d) as [r2|]; simpl; f_equal.
    + by rewrite insert_union_l.
    + by rewrite <-insert_union_l, (left_id_L ∅ (∪)).
  - by rewrite lookup_insert_ne, !lookup_union_with, lookup_insert_ne.
Qed.

Lemma transform_entry_overlay first second entry second' :
  transform_entry second entry = Some second' →
  transform_entry (overlay_rates first second) entry
  = Some (overlay_rates first second').
Proof.
  intros Hstep.
  destruct (invalid_or_observes entry) as [Hbad|(d & c & v & Hobs)].
  - rewrite transform_entry_invalid in Hstep by done.
    rewrite transform_entry_invalid by done. by simplify_eq.
  - rewrite (transform_entry_observes _ _ _ _ _ Hobs) in Hstep.
    rewrite (transform_entry_observes _ _ _ _ _ Hobs).
    simplify_eq. by rewrite overlay_rates_store.
Qed.

Lemma transform_loop_overlay bsi_data first second second' :
  transform_loop second bsi_data = Some second' →
  transform_loop (overlay_rates first second) bsi_data
  = Some (overlay_rates first second').
Proof.
  revert second. induction bsi_data as [|e l IH]; intros m2; simpl.
  - by intros [= <-].
  - destruct (transform_entry m2 e) as [m2'|] eqn:Hstep; simpl; [|done].
    intros Hloop. rewrite (transform_entry_overlay _ _ _ _ Hstep). simpl.
    by apply IH.
Qed.

(** X4. Transforming a list in two parts: the result for the whole list is
    the result for the first part with the result for the second laid over
    it, code by code, so a date of both parts keeps the codes of both and a
    code of both takes the value of the second part. *)
Theorem transform_app (first_part second_part : list Entry) :
  ∃ first second,
    transform_bsi_data first_part = Some first ∧
    transform_bsi_data second_part = Some second ∧
    transform_bsi_data (first_part ++ second_part)
    = Some (overlay_rates first second) ∧
    ∀ d c, rate_at (overlay_rates first second) d c
           = match rate_at second d c with
             | Some v => Some v
             | None => rate_at first d c
             end.
Proof.
  destruct (transform_loop_total ∅ first_part) as [m1 Hm1].
  destruct (transform_loop_total ∅ second_part) as [m2 Hm2].
  exists m1, m2. split; [done|]. split; [done|]. split.
  - unfold transform_bsi_data. rewrite transform_loop_app, Hm1. simpl.
    rewrite <-(overlay_rates_empty_r m1) at 1.
    by apply transform_loop_overlay.
  - intros d c. unfold rate_at, overlay_rates. rewrite lookup_union_with.
    destruct (m1 !! d) as [r1|], (m2 !! d) as [r2|]; simpl; try done.
    + rewrite lookup_union. by destruct (r2 !! c), (r1 !! c).
    + by destruct (r2 !! c).
Qed.

(** * More about the merge *)

Lemma assign_all_lookup_Some {A V : Type} (key : A → string) (val : A → V)
    (d : gmap string V) (l : list A) (k : string) (v : V) :
  assign_all key val d l !! k = Some v →
  (∃ x, x ∈ l ∧ key x = k ∧ val x = v) ∨ d !! k = Some v.
Proof.
  induction l as [|x l IH] using rev_ind; [by right|].
  rewrite assign_all_snoc. destruct (decide (key x = k)) as [<-|Hne].
  - rewrite lookup_insert_eq. intros [= <-]. left. exists x.
    split; [|done]. apply elem_of_app. right. by left.
  - rewrite lookup_insert_ne by done. intros Hlk.
    destruct (IH Hlk) as [(y & Hin & Hy)|?]; [|by right].
    left. exists y. split; [|done]. apply elem_of_app. by left.
Qed.

Lemma merged_by_date_dom existing new_rates_by_date :
  dom (merged_by_date existing new_rates_by_date)
  =@{gset string} list_to_set (date <$> existing) ∪ dom new_rates_by_date.
Proof.
  unfold merged_by_date. rewrite dom_union_L, assign_all_dom. set_solver.
Qed.

Lemma StronglySorted_date_gt_NoDup (table : list RateRecord) :
  StronglySorted date_gt table → NoDup (date <$> table).
Proof.
  induction 1 as [|r l Hl IH Hr]; [constructor|].
  rewrite fmap_cons. apply NoDup_cons. split; [|done].
  intros Hin. apply list_elem_of_fmap in Hin as (r' & Heq & Hin).
  rewrite Forall_forall in Hr. specialize (Hr r' Hin).
  unfold date_gt in Hr. rewrite <-Heq in Hr.
  by rewrite string_ltb_irrefl in Hr.
Qed.

(** X5. The merged table has one record for each date of the existing
    table or of the updates: its length is the number of these dates. *)
Theorem merge_rates_length
    (existing : list RateRecord)
    (new_rates_by_date : gmap string (gmap string number)) :
  length (merge_rates existing new_rates_by_date)
  = size (list_to_set (date <$> existing) ∪ dom new_rates_by_date : gset string).
Proof.
  rewrite <-merged_by_date_dom.
  rewrite <-(length_fmap date), merge_rates_dates, length_fmap.
  by rewrite length_map_to_list, size_dom.
Qed.

(** X6. The order of the existing records does not matter when their dates
    are pairwise distinct: any rearrangement of the table merges to the
    same result. *)
Theorem merge_rates_existing_Permutation
    (existing existing' : list RateRecord)
    (new_rates_by_date : gmap string (gmap string number)) :
  NoDup (date <$> existing) → existing ≡ₚ existing' →
  merge_rates existing new_rates_by_date
  = merge_rates existing' new_rates_by_date.
Proof.
  intros Hnd Hperm. apply merge_rates_ext. unfold merged_by_date.
  by rewrite (assign_all_Permutation date rates ∅ existing existing').
Qed.

Lemma merge_rates_existing_Permutation_witness :
  NoDup (date <$> [jan01; feb01]) ∧ [jan01; feb01] ≡ₚ [feb01; jan01] ∧
  merge_rates [jan01; feb01] mar01_update
  = merge_rates [feb01; jan01] mar01_update.
Proof.
  assert (NoDup (date <$> [jan01; feb01])) as Hnd.
  { apply (bool_decide_unpack _). vm_compute. exact I. }
  assert ([jan01; feb01] ≡ₚ [feb01; jan01]) as Hperm by apply perm_swap.
  split; [exact Hnd|]. split; [exact Hperm|].
  exact (merge_rates_existing_Permutation _ _ mar01_update Hnd Hperm).
Defined.

(** X7. Two merges in a row are one merge: merging a first batch of
    updates and then a second is merging the second laid over the first,
    the second winning on a date of both. *)
Theorem merge_rates_twice
    (existing : list RateRecord)
    (first second : gmap string (gmap string number)) :
  merge_rates (merge_rates existing first) second
  = merge_rates existing (second ∪ first).
Proof.
  apply merge_rates_ext. unfold merged_by_date at 1.
  rewrite rekey_merge_rates. unfold merged_by_date.
  by rewrite (assoc_L (∪)).
Qed.

(** X8. A table that is already strictly descending by date is left as it
    is by a merge without updates. *)
Theorem merge_rates_sorted_fixpoint (table : list RateRecord) :
  StronglySorted date_gt table → merge_rates table ∅ = table.
Proof.
  intros Hsorted.
  pose proof (StronglySorted_date_gt_NoDup table Hsorted) as Hnd.
  apply (StronglySorted_unique (key_gt date)).
  - apply merge_rates_StronglySorted.
  - exact Hsorted.
  - rewrite merge_rates_Permutation. unfold merged_by_date.
    rewrite (left_id_L ∅ (∪)), rekey_NoDup by done.
    rewrite map_to_list_to_map by (by rewrite <-list_fmap_compose).
    rewrite <-list_fmap_compose.
    rewrite (list_fmap_ext _ id _ (λ _ x _, to_record_to_item x)).
    by rewrite list_fmap_id.
Qed.

Lemma merge_rates_sorted_fixpoint_witness :
  StronglySorted date_gt [feb01; jan01] ∧
  merge_rates [feb01; jan01] ∅ = [feb01; jan01].
Proof.
  assert (StronglySorted date_gt [feb01; jan01]) as Hsorted.
  { apply (bool_decide_unpack _). vm_compute. exact I. }
  split; [exact Hsorted|].
  exact (merge_rates_sorted_fixpoint _ Hsorted).
Defined.

(** X9. The merge invents no record: a record of the result is a binding
    of the updates, or it is a record of the existing table whose date the
    updates do not bind. *)
Theorem merge_rates_records_come_from_inputs
    (existing : list RateRecord)
    (new_rates_by_date : gmap string (gmap string number)) (r : RateRecord) :
  r ∈ merge_rates existing new_rates_by_date →
  new_rates_by_date !! date r = Some (rates r) ∨
  (new_rates_by_date !! date r = None ∧ r ∈ existing).
Proof.
  intros Hin. apply elem_of_merge_rates in Hin. unfold merged_by_date in Hin.
  apply lookup_union_Some_raw in Hin as [?|[Hnone Hold]]; [by left|right].
  split; [done|].
  apply assign_all_lookup_Some in Hold as [(r' & Hin & Hd & Hr)|Hempty].
  - destruct r, r'; simpl in *. by simplify_eq.
  - by rewrite lookup_empty in Hempty.
Qed.

Lemma merge_rates_records_come_from_inputs_witness :
  feb01 ∈ merge_rates [jan01; feb01] jan01_update ∧
  (jan01_update !! date feb01 = Some (rates feb01) ∨
   (jan01_update !! date feb01 = None ∧ feb01 ∈ [jan01; feb01])).
Proof.
  assert (feb01 ∈ merge_rates [jan01; feb01] jan01_update) as Hin.
  { replace (merge_rates [jan01; feb01] jan01_update)
      with [feb01; {| date := "2024-01-01";
                      rates := {[ "USD" := PyFloat 1.1; "GBP" := PyFloat 0.9 ]} |}]
      by (vm_compute; reflexivity).
    by left. }
  split; [exact Hin|].
  exact (merge_rates_records_come_from_inputs _ _ _ Hin).
Defined.

(** * The script as a whole *)


Lemma fetch_rates_for_year_nonempty env year w bsi_data w' :
  fetch_rates_for_year env year w = (Some bsi_data, w') →
  list_bool bsi_data = true →
  w' = print (FetchingRatesFrom year) w ∧
  ∃ data, urlopen env year = Body data ∧ get_success data = Some true ∧
    get_data data = Some bsi_data.
Proof.
  unfold fetch_rates_for_year.
  destruct (urlopen env year) as [| |data]; simpl.
  - by intros [= <- <-].
  - done.
  - destruct (get_success data) as [[|]|] eqn:Hs; simpl;
      try by intros [= <- <-].
    destruct (get_data data) as [l|] eqn:Hd; simpl;
      [|by intros [= <- <-]].
    intros [= <- <-] _. split; [done|]. by exists data.
Qed.

(** What a run that reaches its end has done. *)
Lemma main_for_year_Returned env year w w' :
  main_for_year env year w = (Returned, w') →
  ∃ data bsi_data new_rates,
    urlopen env year = Body data ∧ get_success data = Some true ∧
    get_data data = Some bsi_data ∧ bsi_data ≠ [] ∧
    transform_bsi_data bsi_data = Some new_rates ∧
    file w' = Some (merge_rates (existing_table w) new_rates) ∧
    stdout w' = (stdout w ++ lines_of_run year bsi_data new_rates w)%list.
Proof.
  unfold main_for_year.
  destruct (fetch_rates_for_year env year (print (UpdatingFor year) w))
    as [[bsi_data|] w1] eqn:Hfetch; [|done].
  destruct (list_bool bsi_data) eqn:Hne; simpl; [|done].
  destruct (fetch_rates_for_year_nonempty _ _ _ _ _ Hfetch Hne)
    as (-> & data & Hurl & Hs & Hd).
  destruct (transform_bsi_data bsi_data) as [new_rates|] eqn:Htr; [|done].
  unfold load_existing_rates, lines_of_run, existing_table. simpl.
  destruct (file w) as [table|] eqn:Hfile; simpl; intros [= <-]; simpl;
    exists data, bsi_data, new_rates.
  all: split; [done|]; split; [done|]; split; [done|].
  all: split; [by destruct bsi_data|]; split; [done|]; split; [done|].
  all: by rewrite <-!(assoc_L app).
Qed.

Lemma main_Returned env w w' :
  main env w = (Returned, w') →
  ∃ year, requested_year env = Some year ∧
    main_for_year env year w = (Returned, w').
Proof.
  unfold main, requested_year.
  destruct (argv env) as [|script [|arg rest]]; try by eauto.
  destruct (int env arg) as [year|]; [by eauto|done].
Qed.


Lemma merge_rates_merge_rates existing first second :
  merge_rates (merge_rates existing first) second
  = merge_rates existing (second ∪ first).
Proof.
  apply merge_rates_ext. unfold merged_by_date at 1.
  rewrite rekey_merge_rates. unfold merged_by_date.
  by rewrite (assoc_L (∪)).
Qed.

Lemma main_requested_year env year w :
  requested_year env = Some year → main env w = main_for_year env year w.
Proof.
  unfold main, requested_year.
  destruct (argv env) as [|script [|arg rest]]; by intros [= ->].
Qed.

(** A run on a successful answer with a list that is not empty. *)
Lemma main_for_year_success env year w data bsi_data new_rates :
  urlopen env year = Body data → get_success data = Some true →
  get_data data = Some bsi_data → bsi_data ≠ [] →
  transform_bsi_data bsi_data = Some new_rates →
  main_for_year env year w
  = (Returned,
     {| file := Some (merge_rates (existing_table w) new_rates);
        stdout := stdout w ++ lines_of_run year bsi_data new_rates w |}).
Proof.
  intros Hurl Hs Hd Hne Htr. unfold main_for_year, fetch_rates_for_year.
  rewrite Hurl, Hs, Hd. simpl.
  destruct bsi_data as [|e l]; [done|]. simpl. rewrite Htr.
  unfold load_existing_rates, lines_of_run, existing_table, save_rates. simpl.
  destruct (file w) as [table|]; simpl; unfold print; simpl.
  all: by rewrite <-!(assoc_L app).
Qed.

Lemma merge_rates_keeps_dates existing new_rates_by_date r :
  r ∈ existing →
  ∃ r', r' ∈ merge_rates existing new_rates_by_date ∧ date r' = date r.
Proof.
  intros Hin.
  assert (date r ∈ dom (merged_by_date existing new_rates_by_date)) as Hdom.
  { rewrite merged_by_date_dom, elem_of_union, elem_of_list_to_set. left.
    by apply list_elem_of_fmap_2. }
  apply elem_of_dom in Hdom as [rs Hrs].
  exists {| date := date r; rates := rs |}. split; [|done].
  by apply elem_of_merge_rates.
Qed.




(** X12. When [main] runs to its end, the file holds a table that is
    strictly descending by date, so without a repeated date, and every
    date of the table that was there before is still in it. *)
Theorem main_saves_sorted_table_keeping_dates (env : Env) (w w' : World) :
  main env w = (Returned, w') →
  ∃ table, file w' = Some table ∧
    StronglySorted date_gt table ∧ NoDup (date <$> table) ∧
    ∀ r, r ∈ existing_table w → ∃ r', r' ∈ table ∧ date r' = date r.
Proof.
  intros Hrun. apply main_Returned in Hrun as (year & _ & Hrun).
  apply main_for_year_Returned in Hrun
    as (data & bsi_data & new_rates & _ & _ & _ & _ & _ & Hfile & _).
  eexists. split; [exact Hfile|].
  split; [apply merge_rates_StronglySorted|].
  split; [apply merge_rates_NoDup|].
  intros r. apply merge_rates_keeps_dates.
Qed.

Lemma main_saves_sorted_table_keeping_dates_witness :
  main sample_env sample_world
    = (Returned, (main sample_env sample_world).2) ∧
  ∃ table, file (main sample_env sample_world).2 = Some table ∧
    StronglySorted date_gt table ∧ NoDup (date <$> table) ∧
    ∀ r, r ∈ existing_table sample_world →
      ∃ r', r' ∈ table ∧ date r' = date r.
Proof.
  assert (main sample_env sample_world
          = (Returned, (main sample_env sample_world).2)) as Hrun
    by (vm_compute; reflexivity).
  split; [exact Hrun|].
  exact (main_saves_sorted_table_keeping_dates _ _ _ Hrun).
Defined.

Lemma size_difference_intersection (X Y : gset string) :
  size (X ∖ Y) + size (X ∩ Y) = size X.
Proof.
  rewrite <-size_union by set_solver. f_equal. apply set_eq. intros x.
  rewrite elem_of_union, elem_of_difference, elem_of_intersection.
  destruct (decide (x ∈ Y)); naive_solver.
Qed.

Lemma merge_rates_length_added existing new_rates_by_date :
  length (merge_rates existing new_rates_by_date)
  = size (list_to_set (date <$> existing) : gset string)
    + size (dom new_rates_by_date ∖ list_to_set (date <$> existing)
            : gset string).
Proof.
  rewrite <-size_union_alt, <-merged_by_date_dom.
  rewrite <-(length_fmap date), merge_rates_dates, length_fmap.
  by rewrite length_map_to_list, size_dom.
Qed.

(** X13. The counts a finished run prints agree with one another: the
    dates added and the dates updated are together the dates of the
    transform, and the entries saved are the distinct dates of the table
    loaded plus the dates added. *)
Theorem main_printed_counts (env : Env) (w w' : World)
    (transformed added updated saved : nat) :
  main env w = (Returned, w') → stdout w = [] →
  TransformedInto transformed ∈ stdout w' →
  AddedUpdated added updated ∈ stdout w' →
  SavedEntries saved ∈ stdout w' →
  added + updated = transformed ∧
  saved = size (list_to_set (date <$> existing_table w) : gset string) + added.
Proof.
  intros Hrun Hout. apply main_Returned in Hrun as (year & _ & Hrun).
  apply main_for_year_Returned in Hrun
    as (data & bsi_data & new_rates & _ & _ & _ & _ & _ & _ & Hlines).
  rewrite Hlines, Hout. unfold lines_of_run. simpl.
  intros Ht Ha Hs.
  assert (transformed = size new_rates) as ->.
  { destruct (file w); set_unfold; naive_solver. }
  assert (added = size (dom new_rates
                        ∖ list_to_set (date <$> existing_table w) : gset string)
          ∧ updated = size (dom new_rates
                        ∩ list_to_set (date <$> existing_table w) : gset string))
    as [-> ->].
  { destruct (file w); set_unfold; naive_solver. }
  assert (saved = length (merge_rates (existing_table w) new_rates)) as ->.
  { destruct (file w); set_unfold; naive_solver. }
  split.
  - by rewrite size_difference_intersection, size_dom.
  - apply merge_rates_length_added.
Qed.

Lemma main_printed_counts_witness :
  main sample_env sample_world = (Returned, (main sample_env sample_world).2) ∧
  stdout sample_world = [] ∧
  TransformedInto 2 ∈ stdout (main sample_env sample_world).2 ∧
  AddedUpdated 2 0 ∈ stdout (main sample_env sample_world).2 ∧
  SavedEntries 4 ∈ stdout (main sample_env sample_world).2 ∧
  2 + 0 = 2 ∧
  4 = size (list_to_set (date <$> existing_table sample_world) : gset string) + 2.
Proof.
  assert (main sample_env sample_world
          = (Returned, (main sample_env sample_world).2)) as Hrun
    by (vm_compute; reflexivity).
  assert (stdout sample_world = []) as Hout by reflexivity.
  assert (stdout (main sample_env sample_world).2
          = [ UpdatingFor 2024; FetchingRatesFrom 2024; FetchedEntries 4;
              TransformedInto 2; LoadedEntries 3; AddedUpdated 2 0;
              SavedEntries 4; Done ]) as Hlines
    by (vm_compute; reflexivity).
  assert (TransformedInto 2 ∈ stdout (main sample_env sample_world).2) as Ht.
  { rewrite Hlines. do 3 apply list_elem_of_further. apply list_elem_of_here. }
  assert (AddedUpdated 2 0 ∈ stdout (main sample_env sample_world).2) as Ha.
  { rewrite Hlines. do 5 apply list_elem_of_further. apply list_elem_of_here. }
  assert (SavedEntries 4 ∈ stdout (main sample_env sample_world).2) as Hs.
  { rewrite Hlines. do 6 apply list_elem_of_further. apply list_elem_of_here. }
  split; [exact Hrun|]. split; [exact Hout|]. split; [exact Ht|].
  split; [exact Ha|]. split; [exact Hs|].
  exact (main_printed_counts _ _ _ _ _ _ _ Hrun Hout Ht Ha Hs).
Defined.

(** X14. Running the script again on the same answer changes nothing: a
    second run after a finished one finishes too and leaves the file as
    the first run wrote it. *)
Theorem main_second_run_keeps_file (env : Env) (w w1 : World) :
  main env w = (Returned, w1) →
  ∃ w2, main env w1 = (Returned, w2) ∧ file w2 = file w1.
Proof.
  intros Hrun. apply main_Returned in Hrun as (year & Hyear & Hrun).
  apply main_for_year_Returned in Hrun
    as (data & bsi_data & new_rates & Hurl & Hs & Hd & Hne & Htr & Hfile & _).
  rewrite (main_requested_year _ _ _ Hyear).
  rewrite (main_for_year_success _ _ _ _ _ _ Hurl Hs Hd Hne Htr).
  eexists. split; [done|]. simpl. rewrite Hfile. f_equal.
  unfold existing_table. rewrite Hfile. simpl.
  by rewrite merge_rates_merge_rates, (idemp_L (∪)).
Qed.

Lemma main_second_run_keeps_file_witness :
  main sample_env sample_world = (Returned, (main sample_env sample_world).2) ∧
  ∃ w2, main sample_env (main sample_env sample_world).2 = (Returned, w2) ∧
    file w2 = file (main sample_env sample_world).2.
Proof.
  assert (main sample_env sample_world
          = (Returned, (main sample_env sample_world).2)) as Hrun
    by (vm_compute; reflexivity).
  split; [exact Hrun|].
  exact (main_second_run_keeps_file _ _ _ Hrun).
Defined.

(** X15. From the API to the file: after a finished run the file holds,
    for every date and code of the list fetched, a record for that date
    whose rate for that code is the value of the last valid observation
    of the pair in the list. *)
Theorem main_saves_last_observed_rates (env : Env) (w w' : World) :
  main env w = (Returned, w') →
  ∃ year data bsi_data table,
    requested_year env = Some year ∧ urlopen env year = Body data ∧
    get_data data = Some bsi_data ∧ file w' = Some table ∧
    ∀ (before : list Entry) entry after d c v,
      bsi_data = (before ++ entry :: after)%list →
      observes entry d c v →
      (∀ later v', later ∈ after → ¬ observes later d c v') →
      ∃ r, r ∈ table ∧ date r = d ∧ rates r !! c = Some v.
Proof.
  intros Hrun. apply main_Returned in Hrun as (year & Hyear & Hrun).
  apply main_for_year_Returned in Hrun
    as (data & bsi_data & new_rates & Hurl & _ & Hd & _ & Htr & Hfile & _).
  exists year, data, bsi_data, (merge_rates (existing_table w) new_rates).
  split; [done|]. split; [done|]. split; [done|]. split; [done|].
  intros before entry after d c v -> Hobs Hlast.
  unfold transform_bsi_data in Htr. rewrite transform_loop_app in Htr.
  destruct (transform_loop_total ∅ before) as [m0 Hm0].
  rewrite Hm0 in Htr. simpl in Htr.
  destruct (transform_entry_rate_at m0 entry d c v Hobs) as (m1 & Hm1 & Hrate).
  rewrite Hm1 in Htr. simpl in Htr.
  destruct (transform_loop_rate_at_other after m1 d c Hlast)
    as (m2 & Hm2 & Hrate2).
  rewrite Hm2 in Htr. simplify_eq. rewrite Hrate in Hrate2.
  unfold rate_at in Hrate2.
  destruct (new_rates !! d) as [inner|] eqn:Hinner; [|done].
  simpl in Hrate2.
  exists {| date := d; rates := inner |}. split; [|done].
  apply elem_of_merge_rates. unfold merged_by_date. simpl.
  by apply lookup_union_Some_l.
Qed.

Lemma main_saves_last_observed_rates_witness :
  main sample_env sample_world = (Returned, (main sample_env sample_world).2) ∧
  ∃ year data bsi_data table,
    requested_year sample_env = Some year ∧
    urlopen sample_env year = Body data ∧
    get_data data = Some bsi_data ∧
    file (main sample_env sample_world).2 = Some table ∧
    ∀ (before : list Entry) entry after d c v,
      bsi_data = (before ++ entry :: after)%list →
      observes entry d c v →
      (∀ later v', later ∈ after → ¬ observes later d c v') →
      ∃ r, r ∈ table ∧ date r = d ∧ rates r !! c = Some v.
Proof.
  assert (main sample_env sample_world
          = (Returned, (main sample_env sample_world).2)) as Hrun
    by (vm_compute; reflexivity).
  split; [exact Hrun|].
  exact (main_saves_last_observed_rates _ _ _ Hrun).
Defined.
